(** * react-native-image-viewing: the [ImageViewing] component

    A shallow embedding of the viewer component (the main component file,
    lines 72-258) and of the types of [src/@types/index.ts].

    The component is a React function component: it owns a few pieces of hook
    state, renders an element tree from its props and that state, and reacts
    to events (scroll settle, zoom, press, close request, imperative handle
    calls) by updating the state and by calling into the host framework or
    into the callbacks of the embedding application.  The embedding is by
    explicit state passing: an [Instance] holds the hook state of one mounted
    component, every handler maps an instance to the next instance and to the
    list of calls it makes, in the order it makes them.

    JavaScript numbers that hold indices and pixel offsets are modelled as
    [Z]; the opacity scalar as [Q]. *)

From Stdlib Require Import ZArith List Bool String QArith Lia.
From Stdlib Require Import DecimalString DecimalZ.
Import ListNotations.
Local Open Scope Z_scope.

(** ** [src/@types/index.ts] *)

Module Types.

Record Dimensions := { width : Z; height : Z }.

Record Position := { x : Z; y : Z }.

(** [ImageRequireSource] is a number (a bundled asset), [ImageURISource] an
    object with an optional [uri]; both may carry a [blurhash] and, either
    both or none, a [width] and a [height] ([MandatoryDimensions]). *)
Inductive ImageProvider :=
| ImageRequireSource (asset : Z)
| ImageURISource (uri : option string).

Record ImageSource := {
  blurhash : option string;
  dimensions : option Dimensions;
  provider : ImageProvider
}.

(** [ImageViewingRef]: the commands of the imperative handle. *)
Inductive ImageViewingRef := scrollNext | scrollPrev.

End Types.
Import Types.

(** ** Props *)

(** [ModalProps["presentationStyle"]] and [ModalProps["animationType"]]. *)
Inductive PresentationStyle := fullScreen | pageSheet | formSheet | overFullScreen.
Inductive AnimationType := animNone | animSlide | animFade.
Inductive HeaderFooterAnimation := slide | fade.
Inductive Orientation := portrait | landscape.

(** A function passed in by the embedding application.  The callbacks return
    nothing, so a callback is modelled by its identity and an invocation by a
    [Call] that records the callback and its argument. *)
Definition Callback := nat.

Record Props := {
  images : list ImageSource;
  keyExtractor : option Callback;
  imageIndex : Z;
  visible : bool;
  onRequestClose : Callback;
  onPress : option Callback;
  onLongPress : option Callback;
  onImageIndexChange : option Callback;
  presentationStyle : option PresentationStyle;
  animationType : option AnimationType;
  backgroundColor : option string;
  swipeToCloseEnabled : option bool;
  doubleTapToZoomEnabled : option bool;
  delayLongPress : option Z;
  HeaderComponent : option Callback;
  FooterComponent : option Callback;
  headerAndFooterAnimation : option HeaderFooterAnimation;
  ContentWrapper : option Callback
}.

Definition DEFAULT_ANIMATION_TYPE : AnimationType := animFade.
Definition DEFAULT_HEADER_FOOTER_ANIMATION : HeaderFooterAnimation := slide.
Definition DEFAULT_BG_COLOR : string := "#000".
Definition DEFAULT_DELAY_LONG_PRESS : Z := 800.

(** A destructured prop with a default value: [name = DEFAULT]. *)
Definition withDefault {A} (o : option A) (d : A) : A :=
  match o with Some a => a | None => d end.

Definition imageCount (p : Props) : Z := Z.of_nat (List.length (images p)).

(** ** Calls made by the component *)

Inductive Call :=
| ScrollToIndex (index : Z) (animated : bool)
    (* imageList.current.scrollToIndex({index, animated}) *)
| SetNativeProps (scrollEnabled : bool)
    (* imageList.current.setNativeProps({scrollEnabled}) *)
| CallOnImageIndexChange (cb : Callback) (index : Z)
| CallOnRequestClose (cb : Callback)
| CallOnPress (cb : Callback) (src : ImageSource).

(** A call into the host or into the application may throw.  [perform] runs
    the calls of a handler in order against a host that says which calls
    return; a handler has no [throw] of its own, so it ends abruptly only
    where one of its calls does. *)
Inductive Outcome :=
| Returned (done : list Call)
| Threw (done : list Call) (failed : Call).

Fixpoint perform (host : Call -> bool) (calls : list Call) : Outcome :=
  match calls with
  | [] => Returned []
  | c :: rest =>
      if host c then
        match perform host rest with
        | Returned done => Returned (c :: done)
        | Threw done failed => Threw (c :: done) failed
        end
      else Threw [] c
  end.

(** ** Hook state *)

(** The native list behind [imageList.current]: the one native prop the
    component writes, and the zoom state last reported by the item the list
    shows. *)
Record VirtualizedList := {
  scrollEnabled : bool;
  itemScaled : bool
}.

(** The animated values handed out by [useAnimatedComponents]. *)
Inductive AnimatedValue := headerTransform | footerTransform | barsOpacity.

(** The style object built for the header and for the footer. *)
Inductive AnimationStyle :=
| TransformStyle (transform : AnimatedValue)
| OpacityStyle (opacity : AnimatedValue).

Record Instance := {
  (* useRef<VirtualizedList>(null) *)
  imageList : option VirtualizedList;
  (* useRequestClose *)
  opacity : Q;
  closePending : bool;
  (* useImageIndexChange *)
  currentImageIndex : Z;
  (* useAnimatedComponents *)
  barsVisible : bool;
  (* useMemo(..., [headerAndFooterAnimation]): dependency and value *)
  headerAnimation : HeaderFooterAnimation * AnimationStyle;
  footerAnimation : HeaderFooterAnimation * AnimationStyle;
  (* useEffect(..., [currentImageIndex]): dependency of the last run *)
  effectDeps : Z
}.

Definition set_imageList (l : option VirtualizedList) (st : Instance) : Instance :=
  {| imageList := l; opacity := opacity st; closePending := closePending st;
     currentImageIndex := currentImageIndex st; barsVisible := barsVisible st;
     headerAnimation := headerAnimation st; footerAnimation := footerAnimation st;
     effectDeps := effectDeps st |}.

Definition set_opacity (o : Q) (pending : bool) (st : Instance) : Instance :=
  {| imageList := imageList st; opacity := o; closePending := pending;
     currentImageIndex := currentImageIndex st; barsVisible := barsVisible st;
     headerAnimation := headerAnimation st; footerAnimation := footerAnimation st;
     effectDeps := effectDeps st |}.

Definition setImageIndex (i : Z) (st : Instance) : Instance :=
  {| imageList := imageList st; opacity := opacity st; closePending := closePending st;
     currentImageIndex := i; barsVisible := barsVisible st;
     headerAnimation := headerAnimation st; footerAnimation := footerAnimation st;
     effectDeps := effectDeps st |}.

Definition set_barsVisible (b : bool) (st : Instance) : Instance :=
  {| imageList := imageList st; opacity := opacity st; closePending := closePending st;
     currentImageIndex := currentImageIndex st; barsVisible := b;
     headerAnimation := headerAnimation st; footerAnimation := footerAnimation st;
     effectDeps := effectDeps st |}.

Definition set_memos (h f : HeaderFooterAnimation * AnimationStyle) (st : Instance)
  : Instance :=
  {| imageList := imageList st; opacity := opacity st; closePending := closePending st;
     currentImageIndex := currentImageIndex st; barsVisible := barsVisible st;
     headerAnimation := h; footerAnimation := f;
     effectDeps := effectDeps st |}.

Definition set_effectDeps (d : Z) (st : Instance) : Instance :=
  {| imageList := imageList st; opacity := opacity st; closePending := closePending st;
     currentImageIndex := currentImageIndex st; barsVisible := barsVisible st;
     headerAnimation := headerAnimation st; footerAnimation := footerAnimation st;
     effectDeps := d |}.

(** ** The environment of the component

    [SCREEN] is [Dimensions.get("screen")], read once when the module loads.
    The two initial values belong to hooks whose files are not part of the
    sources; nothing below depends on what they are. *)
Record Env := {
  SCREEN : Dimensions;
  INITIAL_OPACITY : Q;
  INITIAL_BARS_VISIBLE : bool
}.

(** ** React hooks used by the component *)

(** [useMemo(compute, [dep])]: the cached value is kept while the dependency
    is the same, and computed again when it differs or on the first render. *)
Definition useMemo {D V} (same : D -> D -> bool) (compute : D -> V)
    (cache : option (D * V)) (dep : D) : D * V :=
  match cache with
  | Some (d, v) => if same d dep then (d, v) else (dep, compute dep)
  | None => (dep, compute dep)
  end.

(** [useEffect(effect, [dep])] runs the effect after the first render and
    after every render in which the dependency differs from the one of the
    last run. *)
Definition effectRuns (lastDeps : option Z) (dep : Z) : bool :=
  match lastDeps with
  | Some d => negb (d =? dep)
  | None => true
  end.

Definition HeaderFooterAnimation_eqb (a b : HeaderFooterAnimation) : bool :=
  match a, b with
  | slide, slide | fade, fade => true
  | _, _ => false
  end.

(** [Math.round(a / b)] for a positive [b]: halves round up. *)
Definition roundDiv (a b : Z) : Z := (2 * a + b) / (2 * b).

Section Viewer.

Variable env : Env.

Definition SCREEN_WIDTH : Z := width (SCREEN env).

(** *** Hooks of the repository that are not among the sources *)

(** Modelled from the spec: [./hooks/useImageIndexChange] is imported and
    called as [useImageIndexChange(imageIndex, SCREEN)] but its file is
    missing.  The spec has "scroll-settle callbacks update a current-index
    value" and "simple index clamping": the hook starts at the [imageIndex]
    it is given, and [onScroll], attached to [onMomentumScrollEnd], sets the
    current index to the page on which the list came to rest, the horizontal
    offset divided by the screen width and rounded, never below 0.  The hook
    is given the screen and not the images, so the last image bounds the
    index only through the offsets the list can rest at. *)
Definition useImageIndexChange_init (imageIndex : Z) : Z := imageIndex.

Definition onScroll (scrollX : Z) (st : Instance) : Instance :=
  let nextIndex := roundDiv scrollX SCREEN_WIDTH in
  setImageIndex (if nextIndex <? 0 then 0 else nextIndex) st.

(** Modelled from the spec: [./hooks/useRequestClose] is imported and called
    as [useRequestClose(onRequestClose)] but its file is missing.  The spec
    has "a fade/opacity scalar in [0,1]", "close-request debounce/fade" and
    "deferring a close action until a fade animation completes": a close
    request starts the fade and records that a close is pending; when the
    fade has finished the opacity is 0 and the pending close, if any, is
    passed on to [onRequestClose], once. *)
Definition onRequestCloseEnhanced (st : Instance) : Instance * list Call :=
  (set_opacity (opacity st) true st, []).

Definition onFadeEnd (p : Props) (st : Instance) : Instance * list Call :=
  if closePending st
  then (set_opacity 0%Q false st, [CallOnRequestClose (onRequestClose p)])
  else (st, []).

(** Modelled from the spec: [./hooks/useAnimatedComponents] is imported and
    called but its file is missing.  The spec has "a boolean bars visible
    flag": [setBarsVisibility] stores its argument in the flag and
    [toggleBarsVisible] negates the flag; the three animated values follow
    the flag. *)
Definition setBarsVisibility (isVisible : bool) (st : Instance) : Instance :=
  set_barsVisible isVisible st.

Definition toggleBarsVisible (st : Instance) : Instance :=
  set_barsVisible (negb (barsVisible st)) st.

(** *** The imperative handle (lines 98-113) *)

Definition scrollNext (st : Instance) : list Call :=
  match imageList st with
  | None => []
  | Some _ => [ScrollToIndex (currentImageIndex st + 1) true]
  end.

Definition scrollPrev (st : Instance) : list Call :=
  match imageList st with
  | None => []
  | Some _ => [ScrollToIndex (currentImageIndex st - 1) true]
  end.

Definition imperativeHandle (command : ImageViewingRef) (st : Instance) : list Call :=
  match command with
  | Types.scrollNext => scrollNext st
  | Types.scrollPrev => scrollPrev st
  end.

(** *** Header and footer animation (lines 115-131) *)

Definition headerStyle (animation : HeaderFooterAnimation) : AnimationStyle :=
  match animation with
  | slide => TransformStyle headerTransform
  | fade => OpacityStyle barsOpacity
  end.

Definition footerStyle (animation : HeaderFooterAnimation) : AnimationStyle :=
  match animation with
  | slide => TransformStyle footerTransform
  | fade => OpacityStyle barsOpacity
  end.

(** *** [onZoom] and [onPressHandler] (lines 140-152) *)

(** The item that calls [onZoom] is a child of the list: its report is kept
    with the list it belongs to. *)
Definition reportZoom (isScaled : bool) (l : VirtualizedList) : VirtualizedList :=
  {| scrollEnabled := scrollEnabled l; itemScaled := isScaled |}.

Definition setNativeProps (enabled : bool) (l : VirtualizedList) : VirtualizedList :=
  {| scrollEnabled := enabled; itemScaled := itemScaled l |}.

(** [imageList?.current?.setNativeProps(...)] is skipped when the ref is
    null; [setBarsVisibility] is called in both cases. *)
Definition onZoom (isScaled : bool) (st : Instance) : Instance * list Call :=
  match imageList st with
  | Some l =>
      (setBarsVisibility (negb isScaled)
         (set_imageList
            (Some (setNativeProps (negb isScaled) (reportZoom isScaled l))) st),
       [SetNativeProps (negb isScaled)])
  | None => (setBarsVisibility (negb isScaled) st, [])
  end.

Definition onPressHandler (p : Props) (src : ImageSource) (st : Instance)
  : Instance * list Call :=
  (toggleBarsVisible st,
   match onPress p with
   | Some cb => [CallOnPress cb src]
   | None => []
   end).

(** *** The effect of lines 134-138 *)

Definition indexChangeEffect (p : Props) (lastDeps : option Z) (st : Instance)
  : Instance * list Call :=
  if effectRuns lastDeps (currentImageIndex st)
  then (set_effectDeps (currentImageIndex st) st,
        match onImageIndexChange p with
        | Some cb => [CallOnImageIndexChange cb (currentImageIndex st)]
        | None => []
        end)
  else (st, []).

(** *** Rendering (lines 156-234) *)

Inductive HeaderContent :=
| CustomHeader (component : Callback) (imageIndex : Z)
| ImageDefaultHeader.

Record ListElement := {
  data : list ImageSource;
  horizontal : bool;
  pagingEnabled : bool;
  windowSize : Z;
  initialNumToRender : Z;
  maxToRenderPerBatch : Z;
  initialScrollIndex : Z;
  itemCount : Z
}.

Record ModalElement := {
  modal_transparent : bool;
  modal_visible : bool;
  modal_presentationStyle : option PresentationStyle;
  modal_animationType : AnimationType;
  modal_supportedOrientations : list Orientation;
  modal_hardwareAccelerated : bool;
  container_opacity : Q;
  container_backgroundColor : string;
  header_style : AnimationStyle;
  header_content : HeaderContent;
  list_element : ListElement;
  footer : option (AnimationStyle * (Callback * Z))
}.

Definition isOverFullScreen (s : option PresentationStyle) : bool :=
  match s with
  | Some overFullScreen => true
  | _ => false
  end.

(** What the component returns: [None] is the [null] of line 157. *)
Definition render (p : Props) (st : Instance) : option ModalElement :=
  if negb (visible p) then None
  else Some
    {| modal_transparent := isOverFullScreen (presentationStyle p);
       modal_visible := visible p;
       modal_presentationStyle := presentationStyle p;
       modal_animationType := withDefault (animationType p) DEFAULT_ANIMATION_TYPE;
       modal_supportedOrientations := [portrait];
       modal_hardwareAccelerated := true;
       container_opacity := opacity st;
       container_backgroundColor := withDefault (backgroundColor p) DEFAULT_BG_COLOR;
       header_style := snd (headerAnimation st);
       header_content :=
         match HeaderComponent p with
         | Some c => CustomHeader c (currentImageIndex st)
         | None => ImageDefaultHeader
         end;
       list_element :=
         {| data := images p;
            horizontal := true;
            pagingEnabled := true;
            windowSize := 2;
            initialNumToRender := 1;
            maxToRenderPerBatch := 1;
            initialScrollIndex := imageIndex p;
            itemCount := imageCount p |};
       footer :=
         match FooterComponent p with
         | Some c => Some (snd (footerAnimation st), (c, currentImageIndex st))
         | None => None
         end |}.

(** *** One render of the component and its commit *)

(** The list is mounted, and [imageList.current] set, exactly while the
    component returns the modal; a list that is mounted anew scrolls freely
    and shows an image that is not zoomed. *)
Definition commitRef (p : Props) (st : Instance) : Instance :=
  match render p st, imageList st with
  | None, _ => set_imageList None st
  | Some _, Some _ => st
  | Some _, None =>
      set_imageList (Some {| scrollEnabled := true; itemScaled := false |}) st
  end.

Definition animationOf (p : Props) : HeaderFooterAnimation :=
  withDefault (headerAndFooterAnimation p) DEFAULT_HEADER_FOOTER_ANIMATION.

(** First render of a new instance. *)
Definition mount (p : Props) : Instance * list Call :=
  let st :=
    {| imageList := None;
       opacity := INITIAL_OPACITY env;
       closePending := false;
       currentImageIndex := useImageIndexChange_init (imageIndex p);
       barsVisible := INITIAL_BARS_VISIBLE env;
       headerAnimation :=
         useMemo HeaderFooterAnimation_eqb headerStyle None (animationOf p);
       footerAnimation :=
         useMemo HeaderFooterAnimation_eqb footerStyle None (animationOf p);
       effectDeps := useImageIndexChange_init (imageIndex p) |} in
  indexChangeEffect p None (commitRef p st).

(** A later render of the same instance, after new props or a state
    update. *)
Definition rerender (p : Props) (st : Instance) : Instance * list Call :=
  let st1 :=
    set_memos
      (useMemo HeaderFooterAnimation_eqb headerStyle
         (Some (headerAnimation st)) (animationOf p))
      (useMemo HeaderFooterAnimation_eqb footerStyle
         (Some (footerAnimation st)) (animationOf p))
      st in
  indexChangeEffect p (Some (effectDeps st1)) (commitRef p st1).

(** *** [EnhancedImageViewing] (lines 256-258)

    The exported component renders the viewer under [key={props.imageIndex}]:
    with the same key the instance is kept and rendered again, with another
    key it is dropped and a new one is mounted. *)
Record Viewer := {
  props : Props;
  inst : Instance
}.

Definition sameKey (p p' : Props) : bool := imageIndex p =? imageIndex p'.

Definition EnhancedImageViewing_mount (p : Props) : Viewer * list Call :=
  let '(st, calls) := mount p in ({| props := p; inst := st |}, calls).

Definition EnhancedImageViewing_update (p' : Props) (v : Viewer)
  : Viewer * list Call :=
  let '(st, calls) :=
    if sameKey (props v) p' then rerender p' (inst v) else mount p' in
  ({| props := p'; inst := st |}, calls).

(** *** Events *)

Inductive Event :=
| Command (command : ImageViewingRef)   (* a call on the imperative handle *)
| MomentumScrollEnd (scrollX : Z)       (* the list came to rest at an offset *)
| Zoom (isScaled : bool)                (* an image item reports its zoom *)
| Press (src : ImageSource)
| RequestClose                          (* back button, header, swipe to close *)
| FadeEnd                               (* the close fade has finished *)
| NewProps (p : Props).                 (* the application renders again *)

Definition handle (p : Props) (e : Event) (st : Instance) : Instance * list Call :=
  match e with
  | Command c => (st, imperativeHandle c st)
  | MomentumScrollEnd scrollX =>
      match imageList st with
      | Some _ => (onScroll scrollX st, [])
      | None => (st, [])
      end
  | Zoom isScaled => onZoom isScaled st
  | Press src => onPressHandler p src st
  | RequestClose => onRequestCloseEnhanced st
  | FadeEnd => onFadeEnd p st
  | NewProps _ => (st, [])
  end.

(** A handler runs, then the component renders again with the new state.  The
    commands of the handle set no state, so no render follows them. *)
Definition step (v : Viewer) (e : Event) : Viewer * list Call :=
  match e with
  | NewProps p' => EnhancedImageViewing_update p' v
  | Command c => (v, imperativeHandle c (inst v))
  | _ =>
      let '(st1, calls1) := handle (props v) e (inst v) in
      let '(st2, calls2) := rerender (props v) st1 in
      ({| props := props v; inst := st2 |}, calls1 ++ calls2)
  end.

Fixpoint run (v : Viewer) (events : list Event) : Viewer * list Call :=
  match events with
  | [] => (v, [])
  | e :: rest =>
      let '(v1, calls1) := step v e in
      let '(v2, calls2) := run v1 rest in
      (v2, calls1 ++ calls2)
  end.

Definition session (p : Props) (events : list Event) : Viewer * list Call :=
  let '(v0, calls0) := EnhancedImageViewing_mount p in
  let '(v, calls) := run v0 events in
  (v, calls0 ++ calls).

(** The instance between the handler of an event and the render that
    follows it. *)
Definition afterHandler (v : Viewer) (e : Event) : Instance :=
  fst (handle (props v) e (inst v)).

(** *** Properties of a viewer *)

Definition indexInBounds (v : Viewer) : Prop :=
  0 <= currentImageIndex (inst v) < imageCount (props v).

(** The list scrolls exactly when the image it shows is not zoomed. *)
Definition zoomConsistent (st : Instance) : Prop :=
  match imageList st with
  | Some l => scrollEnabled l = negb (itemScaled l)
  | None => True
  end.

(** The element returned for a viewer carries the style [hs] on its header
    and, when a [FooterComponent] is given, the style [fs] on its footer. *)
Definition rendersStyles (v : Viewer) (hs fs : AnimationStyle) : Prop :=
  match render (props v) (inst v) with
  | Some m =>
      header_style m = hs /\
      footer m =
        match FooterComponent (props v) with
        | Some component => Some (fs, (component, currentImageIndex (inst v)))
        | None => None
        end
  | None => visible (props v) = false
  end.

(** What holds of a viewer once a render is committed: the effect has seen
    the current index, the two memoised styles are those of the current prop,
    the list is mounted exactly when the viewer is visible, and its scrolling
    agrees with the zoom of its item. *)
Definition committed (v : Viewer) : Prop :=
  effectDeps (inst v) = currentImageIndex (inst v) /\
  headerAnimation (inst v) =
    (animationOf (props v), headerStyle (animationOf (props v))) /\
  footerAnimation (inst v) =
    (animationOf (props v), footerStyle (animationOf (props v))) /\
  (if visible (props v)
   then imageList (inst v) <> None
   else imageList (inst v) = None) /\
  zoomConsistent (inst v).

End Viewer.


(** ** The data accessors and keys of the list (lines 193-220) *)

(** [getItem={(_, index) => images[index]}]: an index outside the array gives
    [undefined]. *)
Definition getItem (p : Props) (index : Z) : option ImageSource :=
  if index <? 0 then None else nth_error (images p) (Z.to_nat index).

(** [getItemCount={() => images.length}]. *)
Definition getItemCount (p : Props) : Z := imageCount p.

(** The key of a list item: what the [keyExtractor] prop returns when it is
    given, else the number of a bundled asset as a string, else the [uri],
    which may be [undefined]. *)
Inductive Key :=
| ExtractedKey (extractor : Callback) (imageSrc : ImageSource) (index : Z)
| StringKey (key : string)
| UndefinedKey.

(** The template literal [`${imageSrc}`] of an integer. *)
Definition templateLiteral (n : Z) : string := NilEmpty.string_of_int (Z.to_int n).

Definition listKeyExtractor (p : Props) (imageSrc : ImageSource) (index : Z) : Key :=
  match keyExtractor p with
  | Some extractor => ExtractedKey extractor imageSrc index
  | None =>
      match provider imageSrc with
      | ImageRequireSource asset => StringKey (templateLiteral asset)
      | ImageURISource (Some uri) => StringKey uri
      | ImageURISource None => UndefinedKey
      end
  end.

(** The keys of the items of the list, in order. *)
Fixpoint keysFrom (p : Props) (index : Z) (sources : list ImageSource) : list Key :=
  match sources with
  | [] => []
  | imageSrc :: rest => listKeyExtractor p imageSrc index :: keysFrom p (index + 1) rest
  end.

Definition listKeys (p : Props) : list Key := keysFrom p 0 (images p).

Definition isBundled (imageSrc : ImageSource) : Prop :=
  match provider imageSrc with
  | ImageRequireSource _ => True
  | ImageURISource _ => False
  end.

(** ** What the application is told *)

(** The indices passed to [onImageIndexChange] by a list of calls, in order,
    and the last of them. *)
Fixpoint reportedIndices (calls : list Call) : list Z :=
  match calls with
  | [] => []
  | CallOnImageIndexChange _ index :: rest => index :: reportedIndices rest
  | _ :: rest => reportedIndices rest
  end.

Definition lastReported (calls : list Call) : option Z :=
  match rev (reportedIndices calls) with
  | [] => None
  | index :: _ => Some index
  end.

Definition callbackGiven (p : Props) : Prop := onImageIndexChange p <> None.

(** Events that leave the [onImageIndexChange] prop in place. *)
Definition keepsCallback (e : Event) : Prop :=
  match e with
  | NewProps p' => callbackGiven p'
  | _ => True
  end.

(** Events that are neither a zoom report nor new props. *)
Definition besidesZoomAndProps (e : Event) : Prop :=
  match e with
  | Zoom _ | NewProps _ => False
  | _ => True
  end.

Definition scrollLocked (st : Instance) : Prop :=
  option_map scrollEnabled (imageList st) = Some false.

(** What a call made in a step says about the step from [v] to [v'] on the
    event [e]. *)
Definition accountedFor (v v' : Viewer) (e : Event) (call : Call) : Prop :=
  match call with
  | ScrollToIndex index animated =>
      animated = true /\ imageList (inst v) <> None /\
      ((e = Command Types.scrollNext /\ index = currentImageIndex (inst v) + 1) \/
       (e = Command Types.scrollPrev /\ index = currentImageIndex (inst v) - 1))
  | SetNativeProps enabled =>
      e = Zoom (negb enabled) /\ imageList (inst v) <> None
  | CallOnImageIndexChange cb index =>
      onImageIndexChange (props v') = Some cb /\
      index = currentImageIndex (inst v') /\
      (currentImageIndex (inst v') <> currentImageIndex (inst v) \/
       exists p', e = NewProps p' /\ imageIndex p' <> imageIndex (props v))
  | CallOnRequestClose _ => True
  | CallOnPress cb src =>
      e = Press src /\ onPress (props v) = Some cb
  end.

(** ** Concrete viewers *)

Definition phone : Env :=
  {| SCREEN := {| width := 375; height := 812 |};
     INITIAL_OPACITY := 1%Q;
     INITIAL_BARS_VISIBLE := true |}.

Definition photo (asset : Z) : ImageSource :=
  {| blurhash := None; dimensions := None; provider := ImageRequireSource asset |}.

(** Props with the given images, start index, visibility and index callback,
    and every other optional prop left out. *)
Definition gallery (photos : list ImageSource) (start : Z) (shown : bool)
    (callback : option Callback) : Props :=
  {| images := photos; keyExtractor := None; imageIndex := start;
     visible := shown; onRequestClose := 0%nat; onPress := None;
     onLongPress := None; onImageIndexChange := callback;
     presentationStyle := None; animationType := None; backgroundColor := None;
     swipeToCloseEnabled := None; doubleTapToZoomEnabled := None;
     delayLongPress := None; HeaderComponent := None; FooterComponent := None;
     headerAndFooterAnimation := None; ContentWrapper := None |}.

Definition threePhotos : list ImageSource := [photo 1; photo 2; photo 3].

(** A viewer that shows the last of three photos, one that shows the first,
    and one that is mounted but not visible. *)
Definition atLast : Viewer := fst (session phone (gallery threePhotos 2 true (Some 7%nat)) []).
Definition atFirst : Viewer := fst (session phone (gallery threePhotos 0 true (Some 7%nat)) []).
Definition hidden : Viewer := fst (session phone (gallery threePhotos 0 false None) []).

Definition freshList : VirtualizedList := {| scrollEnabled := true; itemScaled := false |}.

(** The viewer at the first photo after a close request. *)
Definition closing : Viewer := fst (run phone atFirst [RequestClose]).

(** The list rests on the second page, a command is given, the list rests on
    the third page twice. *)
Definition browsing : list Event :=
  [MomentumScrollEnd 375; Command Types.scrollNext; MomentumScrollEnd 750;
   MomentumScrollEnd 750].

(** Three photos with a header and a footer of the application's own. *)
Definition galleryWithBars : Props :=
  {| images := threePhotos; keyExtractor := None; imageIndex := 0;
     visible := true; onRequestClose := 0%nat; onPress := Some 3%nat;
     onLongPress := None; onImageIndexChange := Some 7%nat;
     presentationStyle := None; animationType := None; backgroundColor := None;
     swipeToCloseEnabled := None; doubleTapToZoomEnabled := None;
     delayLongPress := None; HeaderComponent := Some 11%nat;
     FooterComponent := Some 12%nat;
     headerAndFooterAnimation := Some fade; ContentWrapper := None |}.

(** * Properties *)

Section ViewerProperties.

Variable env : Env.

(** ** Rendering and committing *)

Lemma commitRef_fields p st :
  opacity (commitRef p st) = opacity st /\
  closePending (commitRef p st) = closePending st /\
  currentImageIndex (commitRef p st) = currentImageIndex st /\
  barsVisible (commitRef p st) = barsVisible st /\
  headerAnimation (commitRef p st) = headerAnimation st /\
  footerAnimation (commitRef p st) = footerAnimation st /\
  effectDeps (commitRef p st) = effectDeps st.
Proof.
  unfold commitRef, render.
  destruct (visible p); cbn; [destruct (imageList st)|]; cbn; repeat split.
Qed.

Lemma commitRef_imageList p st :
  imageList (commitRef p st) =
  if visible p
  then match imageList st with
       | Some l => Some l
       | None => Some {| scrollEnabled := true; itemScaled := false |}
       end
  else None.
Proof.
  unfold commitRef, render.
  destruct (visible p); cbn; [destruct (imageList st) eqn:E|]; cbn; auto.
Qed.

Lemma indexChangeEffect_fields p deps st :
  imageList (fst (indexChangeEffect p deps st)) = imageList st /\
  opacity (fst (indexChangeEffect p deps st)) = opacity st /\
  closePending (fst (indexChangeEffect p deps st)) = closePending st /\
  currentImageIndex (fst (indexChangeEffect p deps st)) = currentImageIndex st /\
  barsVisible (fst (indexChangeEffect p deps st)) = barsVisible st /\
  headerAnimation (fst (indexChangeEffect p deps st)) = headerAnimation st /\
  footerAnimation (fst (indexChangeEffect p deps st)) = footerAnimation st.
Proof.
  unfold indexChangeEffect.
  destruct (effectRuns deps (currentImageIndex st)); cbn; repeat split.
Qed.

Lemma indexChangeEffect_deps p d st :
  effectDeps st = d ->
  effectDeps (fst (indexChangeEffect p (Some d) st)) = currentImageIndex st.
Proof.
  intros Hd. unfold indexChangeEffect, effectRuns.
  destruct (d =? currentImageIndex st) eqn:E; cbn; [|reflexivity].
  apply Z.eqb_eq in E. congruence.
Qed.

Lemma rerender_fields p st :
  opacity (fst (rerender p st)) = opacity st /\
  closePending (fst (rerender p st)) = closePending st /\
  currentImageIndex (fst (rerender p st)) = currentImageIndex st /\
  barsVisible (fst (rerender p st)) = barsVisible st.
Proof.
  unfold rerender.
  match goal with |- context [indexChangeEffect p ?d (commitRef p ?s)] =>
    destruct (indexChangeEffect_fields p d (commitRef p s)) as (_ & E1 & E2 & E3 & E4 & _);
    destruct (commitRef_fields p s) as (C1 & C2 & C3 & C4 & _)
  end.
  rewrite E1, E2, E3, E4, C1, C2, C3, C4. cbn. repeat split.
Qed.

Lemma rerender_imageList p st :
  imageList (fst (rerender p st)) =
  if visible p
  then match imageList st with
       | Some l => Some l
       | None => Some {| scrollEnabled := true; itemScaled := false |}
       end
  else None.
Proof.
  unfold rerender.
  match goal with |- context [indexChangeEffect p ?d (commitRef p ?s)] =>
    destruct (indexChangeEffect_fields p d (commitRef p s)) as (E & _);
    rewrite E, commitRef_imageList
  end.
  reflexivity.
Qed.

Lemma rerender_deps p st :
  effectDeps (fst (rerender p st)) = currentImageIndex st.
Proof.
  unfold rerender.
  match goal with |- context [indexChangeEffect p (Some ?d) (commitRef p ?s)] =>
    rewrite (indexChangeEffect_deps p d (commitRef p s));
    [ destruct (commitRef_fields p s) as (_ & _ & C & _); rewrite C; reflexivity
    | destruct (commitRef_fields p s) as (_ & _ & _ & _ & _ & _ & C); rewrite C;
      reflexivity ]
  end.
Qed.

Lemma mount_fields p :
  opacity (fst (mount env p)) = INITIAL_OPACITY env /\
  closePending (fst (mount env p)) = false /\
  currentImageIndex (fst (mount env p)) = imageIndex p /\
  barsVisible (fst (mount env p)) = INITIAL_BARS_VISIBLE env /\
  effectDeps (fst (mount env p)) = imageIndex p.
Proof.
  unfold mount, indexChangeEffect, effectRuns, commitRef, render.
  destruct (visible p); cbn; repeat split.
Qed.

Lemma mount_imageList p :
  imageList (fst (mount env p)) =
  if visible p then Some {| scrollEnabled := true; itemScaled := false |} else None.
Proof.
  unfold mount, indexChangeEffect, effectRuns, commitRef, render.
  destruct (visible p); reflexivity.
Qed.

Lemma rerender_calls p st :
  snd (rerender p st) =
  if effectDeps st =? currentImageIndex st then []
  else match onImageIndexChange p with
       | Some cb => [CallOnImageIndexChange cb (currentImageIndex st)]
       | None => []
       end.
Proof.
  unfold rerender, indexChangeEffect, effectRuns.
  match goal with |- context [commitRef p ?s] =>
    destruct (commitRef_fields p s) as (_ & _ & C & _); rewrite C
  end.
  cbn. destruct (effectDeps st =? currentImageIndex st); reflexivity.
Qed.

Lemma mount_calls p :
  snd (mount env p) =
  match onImageIndexChange p with
  | Some cb => [CallOnImageIndexChange cb (imageIndex p)]
  | None => []
  end.
Proof.
  unfold mount, indexChangeEffect, effectRuns, commitRef, render.
  destruct (visible p); reflexivity.
Qed.

Lemma HeaderFooterAnimation_eqb_eq a b :
  HeaderFooterAnimation_eqb a b = true -> a = b.
Proof. destruct a, b; cbn; congruence. Qed.

Lemma useMemo_fresh (compute : HeaderFooterAnimation -> AnimationStyle) d dep :
  useMemo HeaderFooterAnimation_eqb compute (Some (d, compute d)) dep =
  (dep, compute dep).
Proof.
  unfold useMemo. destruct (HeaderFooterAnimation_eqb d dep) eqn:E; [|reflexivity].
  apply HeaderFooterAnimation_eqb_eq in E. now subst.
Qed.

Lemma rerender_memos p st d :
  headerAnimation st = (d, headerStyle d) ->
  footerAnimation st = (d, footerStyle d) ->
  headerAnimation (fst (rerender p st)) = (animationOf p, headerStyle (animationOf p)) /\
  footerAnimation (fst (rerender p st)) = (animationOf p, footerStyle (animationOf p)).
Proof.
  intros Hh Hf. unfold rerender.
  match goal with |- context [indexChangeEffect p ?x (commitRef p ?s)] =>
    destruct (indexChangeEffect_fields p x (commitRef p s))
      as (_ & _ & _ & _ & _ & E1 & E2);
    destruct (commitRef_fields p s) as (_ & _ & _ & _ & C1 & C2 & _)
  end.
  rewrite E1, E2, C1, C2. unfold set_memos. cbn [headerAnimation footerAnimation].
  rewrite Hh, Hf, !useMemo_fresh. split; reflexivity.
Qed.

Lemma rerender_zoomConsistent p st :
  zoomConsistent st -> zoomConsistent (fst (rerender p st)).
Proof.
  unfold zoomConsistent. rewrite rerender_imageList.
  destruct (visible p); [|trivial]. destruct (imageList st); auto.
Qed.

(** The handlers leave the memoised styles and the dependency of the effect
    alone. *)
Lemma handle_fields p e st :
  headerAnimation (fst (handle env p e st)) = headerAnimation st /\
  footerAnimation (fst (handle env p e st)) = footerAnimation st /\
  effectDeps (fst (handle env p e st)) = effectDeps st.
Proof.
  destruct e; cbn; unfold onZoom, onFadeEnd;
    try destruct (imageList st); try destruct (closePending st); cbn; auto.
Qed.

Lemma handle_zoomConsistent p e st :
  zoomConsistent st -> zoomConsistent (fst (handle env p e st)).
Proof.
  unfold zoomConsistent.
  destruct e; cbn; unfold onZoom, onFadeEnd;
    try destruct (imageList st) eqn:E; try destruct (closePending st);
    cbn; try rewrite E; auto.
Qed.

(** Only a scroll that has come to rest changes the current index. *)
Lemma handle_index p e st :
  currentImageIndex (fst (handle env p e st)) = currentImageIndex st \/
  exists scrollX l, e = MomentumScrollEnd scrollX /\ imageList st = Some l /\
    fst (handle env p e st) = onScroll env scrollX st.
Proof.
  destruct e; cbn; unfold onZoom, onFadeEnd;
    try destruct (imageList st) eqn:E; try destruct (closePending st);
    cbn; eauto 7.
Qed.

Lemma mount_committed p : committed (fst (EnhancedImageViewing_mount env p)).
Proof.
  unfold EnhancedImageViewing_mount, committed.
  destruct (mount env p) as [st calls] eqn:E. cbn.
  assert (Est : st = fst (mount env p)) by (rewrite E; reflexivity).
  subst st. clear E.
  destruct (mount_fields p) as (_ & _ & I & _ & D).
  rewrite I, D. unfold zoomConsistent. rewrite mount_imageList.
  split; [reflexivity|].
  repeat split.
  - unfold mount, indexChangeEffect, effectRuns, commitRef, render.
    destruct (visible p); reflexivity.
  - unfold mount, indexChangeEffect, effectRuns, commitRef, render.
    destruct (visible p); reflexivity.
  - destruct (visible p); [discriminate|reflexivity].
  - destruct (visible p); cbn; auto.
Qed.

Lemma rerender_committed p st d :
  headerAnimation st = (d, headerStyle d) ->
  footerAnimation st = (d, footerStyle d) ->
  zoomConsistent st ->
  committed {| props := p; inst := fst (rerender p st) |}.
Proof.
  intros Hh Hf Hz. unfold committed. cbn [props inst].
  destruct (rerender_memos p st d Hh Hf) as [M1 M2].
  destruct (rerender_fields p st) as (_ & _ & I & _).
  rewrite rerender_deps, I, M1, M2.
  repeat split.
  - rewrite rerender_imageList.
    destruct (visible p); [destruct (imageList st); discriminate|reflexivity].
  - now apply rerender_zoomConsistent.
Qed.

(** The two halves of a step, without the pairs. *)
Lemma update_eq p' v :
  EnhancedImageViewing_update env p' v =
  ({| props := p';
      inst := fst (if sameKey (props v) p' then rerender p' (inst v) else mount env p') |},
   snd (if sameKey (props v) p' then rerender p' (inst v) else mount env p')).
Proof.
  unfold EnhancedImageViewing_update.
  destruct (if sameKey (props v) p' then rerender p' (inst v) else mount env p');
    reflexivity.
Qed.

Lemma mountViewer_eq p :
  EnhancedImageViewing_mount env p =
  ({| props := p; inst := fst (mount env p) |}, snd (mount env p)).
Proof.
  unfold EnhancedImageViewing_mount. destruct (mount env p); reflexivity.
Qed.

Lemma step_eq v e :
  step env v e =
  match e with
  | NewProps p' => EnhancedImageViewing_update env p' v
  | Command c => (v, imperativeHandle c (inst v))
  | _ =>
      ({| props := props v; inst := fst (rerender (props v) (afterHandler env v e)) |},
       snd (handle env (props v) e (inst v)) ++
       snd (rerender (props v) (afterHandler env v e)))
  end.
Proof.
  unfold afterHandler.
  destruct e; try reflexivity; unfold step;
    destruct (handle env (props v) _ (inst v)) as [st1 c1]; cbn [fst snd];
    destruct (rerender (props v) st1); reflexivity.
Qed.

Lemma step_committed v e : committed v -> committed (fst (step env v e)).
Proof.
  intros Hc. pose proof Hc as (Hd & Hh & Hf & Hv & Hz).
  rewrite step_eq.
  assert (Hgen : committed
            {| props := props v;
               inst := fst (rerender (props v) (afterHandler env v e)) |}).
  { unfold afterHandler.
    destruct (handle_fields (props v) e (inst v)) as (F1 & F2 & _).
    apply rerender_committed with (d := animationOf (props v)).
    - now rewrite F1.
    - now rewrite F2.
    - now apply handle_zoomConsistent. }
  destruct e; try exact Hgen; [exact Hc|].
  rewrite update_eq. cbn [fst].
  destruct (sameKey (props v) p).
  - now apply rerender_committed with (d := animationOf (props v)).
  - pose proof (mount_committed p) as M. now rewrite mountViewer_eq in M.
Qed.

Lemma run_fst_app v e rest :
  fst (run env v (e :: rest)) = fst (run env (fst (step env v e)) rest).
Proof.
  cbn [run]. destruct (step env v e) as [v1 c1]. cbn [fst].
  destruct (run env v1 rest); reflexivity.
Qed.

Lemma session_fst p events :
  fst (session env p events) =
  fst (run env (fst (EnhancedImageViewing_mount env p)) events).
Proof.
  unfold session. destruct (EnhancedImageViewing_mount env p) as [v0 c0].
  cbn [fst]. destruct (run env v0 events); reflexivity.
Qed.

(** Induction along a run: what holds at the start and is kept by every step
    that the surroundings may take holds at the end. *)
Lemma run_invariant (P : Viewer -> Prop) (allowed : Event -> Prop) :
  (forall v e, allowed e -> P v -> P (fst (step env v e))) ->
  forall events v, Forall allowed events -> P v -> P (fst (run env v events)).
Proof.
  intros Hstep events.
  induction events as [|e rest IH]; intros v Hall Hv; [exact Hv|].
  rewrite run_fst_app. inversion Hall; subst. apply IH; auto.
Qed.

Lemma session_committed p events : committed (fst (session env p events)).
Proof.
  rewrite session_fst.
  apply run_invariant with (allowed := fun _ => True).
  - intros v e _. apply step_committed.
  - apply Forall_forall. trivial.
  - apply mount_committed.
Qed.

(** ** The imperative handle *)

(** C2: the handle has exactly the two commands [scrollNext] and [scrollPrev];
    while the list is mounted, [scrollNext] at current index [i] asks the list
    to scroll to [i + 1] and [scrollPrev] to [i - 1], animated, and neither
    changes the state of the viewer. *)
Theorem handle_requests_neighbour_index (v : Viewer) (l : VirtualizedList)
    (Hmounted : imageList (inst v) = Some l) :
  (forall c : ImageViewingRef, c = Types.scrollNext \/ c = Types.scrollPrev) /\
  step env v (Command Types.scrollNext) =
    (v, [ScrollToIndex (currentImageIndex (inst v) + 1) true]) /\
  step env v (Command Types.scrollPrev) =
    (v, [ScrollToIndex (currentImageIndex (inst v) - 1) true]).
Proof.
  split; [intros []; auto|].
  cbn. unfold scrollNext, scrollPrev. rewrite Hmounted. split; reflexivity.
Qed.

(** C6: while the list ref is null, either command of the handle returns
    without making any call, whatever the host would do with a call, and
    leaves the viewer as it is. *)
Theorem handle_null_ref_is_noop (host : Call -> bool) (v : Viewer)
    (Hnull : imageList (inst v) = None) (c : ImageViewingRef) :
  imperativeHandle c (inst v) = [] /\
  perform host (imperativeHandle c (inst v)) = Returned [] /\
  step env v (Command c) = (v, []).
Proof.
  assert (E : imperativeHandle c (inst v) = []).
  { destruct c; cbn; unfold scrollNext, scrollPrev; rewrite Hnull; reflexivity. }
  cbn [step]. rewrite E. repeat split.
Qed.

(** ** Rendering *)

(** C4: the component returns [null] when [visible] is false, and when
    [visible] is true a modal whose [visible] prop is true; the list, and
    with it the ref, is mounted after a render exactly when [visible] holds. *)
Theorem render_follows_visible (p : Props) (st : Instance) :
  match render p st with
  | None => visible p = false
  | Some m => visible p = true /\ modal_visible m = true
  end /\
  (if visible p
   then imageList (fst (rerender p st)) <> None /\ imageList (fst (mount env p)) <> None
   else imageList (fst (rerender p st)) = None /\ imageList (fst (mount env p)) = None).
Proof.
  split.
  - unfold render. destruct (visible p) eqn:E; cbn; auto.
  - rewrite rerender_imageList, mount_imageList.
    destruct (visible p); [|split; reflexivity].
    split; [destruct (imageList st)|]; discriminate.
Qed.

(** ** The index reaches the application *)

Lemma step_index_unchanged_or_reported v e :
  committed v ->
  currentImageIndex (inst (fst (step env v e))) = currentImageIndex (inst v) \/
  snd (step env v e) =
    match onImageIndexChange (props (fst (step env v e))) with
    | Some cb => [CallOnImageIndexChange cb (currentImageIndex (inst (fst (step env v e))))]
    | None => []
    end.
Proof.
  intros (Hd & _). rewrite step_eq.
  assert (Hother :
    currentImageIndex (afterHandler env v e) = currentImageIndex (inst v) ->
    currentImageIndex
      (inst (fst ({| props := props v;
                     inst := fst (rerender (props v) (afterHandler env v e)) |},
                  snd (handle env (props v) e (inst v)) ++
                  snd (rerender (props v) (afterHandler env v e))))) =
    currentImageIndex (inst v)).
  { intros H. cbn [fst inst].
    destruct (rerender_fields (props v) (afterHandler env v e)) as (_ & _ & I & _).
    now rewrite I. }
  destruct e as [c | scrollX | b | src | | | p'].
  - left; reflexivity.
  - (* the list came to rest *)
    destruct (Z.eq_dec (currentImageIndex (afterHandler env v (MomentumScrollEnd scrollX)))
                (currentImageIndex (inst v))) as [E | N]; [left; auto|].
    right. cbn [fst snd props inst]. rewrite rerender_calls.
    destruct (rerender_fields (props v) (afterHandler env v (MomentumScrollEnd scrollX)))
      as (_ & _ & I & _).
    rewrite I.
    assert (Ed : effectDeps (afterHandler env v (MomentumScrollEnd scrollX)) =
                 effectDeps (inst v)).
    { now destruct (handle_fields (props v) (MomentumScrollEnd scrollX) (inst v))
        as (_ & _ & F). }
    assert (Ec : snd (handle env (props v) (MomentumScrollEnd scrollX) (inst v)) = []).
    { cbn. destruct (imageList (inst v)); reflexivity. }
    rewrite Ed, Hd, Ec. cbn [app].
    destruct (currentImageIndex (inst v) =?
              currentImageIndex (afterHandler env v (MomentumScrollEnd scrollX))) eqn:Q;
      [|reflexivity].
    apply Z.eqb_eq in Q. congruence.
  - left. apply Hother. unfold afterHandler. cbn. unfold onZoom.
    destruct (imageList (inst v)); reflexivity.
  - left. apply Hother. reflexivity.
  - left. apply Hother. reflexivity.
  - left. apply Hother. unfold afterHandler. cbn. unfold onFadeEnd.
    destruct (closePending (inst v)); reflexivity.
  - (* new props *)
    rewrite update_eq. cbn [fst snd props inst].
    destruct (sameKey (props v) p').
    + left. now destruct (rerender_fields p' (inst v)) as (_ & _ & I & _).
    + right. rewrite mount_calls.
      now destruct (mount_fields p') as (_ & _ & I & _); rewrite I.
Qed.

(** C5: on mount the callback [onImageIndexChange], when given, is called
    with the initial index, and after every step of a session that changes the
    current index it is called, once, with the new index; when it is not
    given nothing is called. *)
Theorem index_change_calls_back (p : Props) (events : list Event) (e : Event)
    (Hchanged :
       currentImageIndex (inst (fst (step env (fst (session env p events)) e))) <>
       currentImageIndex (inst (fst (session env p events)))) :
  snd (EnhancedImageViewing_mount env p) =
    match onImageIndexChange p with
    | Some cb => [CallOnImageIndexChange cb (imageIndex p)]
    | None => []
    end /\
  snd (step env (fst (session env p events)) e) =
    match onImageIndexChange (props (fst (step env (fst (session env p events)) e))) with
    | Some cb =>
        [CallOnImageIndexChange cb
           (currentImageIndex (inst (fst (step env (fst (session env p events)) e))))]
    | None => []
    end.
Proof.
  split.
  - rewrite mountViewer_eq. cbn [snd]. apply mount_calls.
  - destruct (step_index_unchanged_or_reported (fst (session env p events)) e
                (session_committed p events)) as [E | E]; [contradiction | exact E].
Qed.

(** ** Header and footer animation *)

(** C7: at every point of a session the styles of header and footer are
    chosen by the [headerAndFooterAnimation] prop of the last render: a
    transform for "slide" and when the prop is left out, an opacity for
    "fade", the same choice for both; these are the styles of the memoised
    [headerAnimation] and [footerAnimation] and the styles that the returned
    element carries on its header and on its footer. *)
Theorem header_footer_animation_selected (p : Props) (events : list Event) :
  match headerAndFooterAnimation (props (fst (session env p events))) with
  | None | Some slide =>
      snd (headerAnimation (inst (fst (session env p events)))) =
        TransformStyle headerTransform /\
      snd (footerAnimation (inst (fst (session env p events)))) =
        TransformStyle footerTransform /\
      rendersStyles (fst (session env p events))
        (TransformStyle headerTransform) (TransformStyle footerTransform)
  | Some fade =>
      snd (headerAnimation (inst (fst (session env p events)))) =
        OpacityStyle barsOpacity /\
      snd (footerAnimation (inst (fst (session env p events)))) =
        OpacityStyle barsOpacity /\
      rendersStyles (fst (session env p events))
        (OpacityStyle barsOpacity) (OpacityStyle barsOpacity)
  end.
Proof.
  destruct (session_committed p events) as (_ & Hh & Hf & _).
  set (v := fst (session env p events)) in *.
  unfold rendersStyles, render. rewrite Hh, Hf. unfold animationOf, withDefault.
  destruct (headerAndFooterAnimation (props v)) as [[|]|];
    destruct (visible (props v)); cbn;
    destruct (FooterComponent (props v)); auto.
Qed.

(** ** Remounting on a new key *)

(** C9: when the [imageIndex] prop differs from the one of the last render,
    the viewer is replaced by a newly mounted one: its current index is the
    new [imageIndex], its opacity and bar visibility are the initial ones and
    no close is pending, whatever the old instance held. *)
Theorem key_change_remounts (p' : Props) (v : Viewer)
    (Hkey : imageIndex p' <> imageIndex (props v)) :
  step env v (NewProps p') = EnhancedImageViewing_mount env p' /\
  currentImageIndex (inst (fst (step env v (NewProps p')))) = imageIndex p' /\
  opacity (inst (fst (step env v (NewProps p')))) = INITIAL_OPACITY env /\
  barsVisible (inst (fst (step env v (NewProps p')))) = INITIAL_BARS_VISIBLE env /\
  closePending (inst (fst (step env v (NewProps p')))) = false.
Proof.
  assert (E : step env v (NewProps p') = EnhancedImageViewing_mount env p').
  { cbn [step]. rewrite update_eq, mountViewer_eq. unfold sameKey.
    destruct (imageIndex (props v) =? imageIndex p') eqn:Q; [|reflexivity].
    apply Z.eqb_eq in Q. congruence. }
  rewrite E, mountViewer_eq. cbn [fst inst].
  destruct (mount_fields p') as (O & C & I & B & _). auto.
Qed.

(** ** Zoom *)

(** C10: [onZoom(isScaled)] sets the bars visible exactly when the image is
    not scaled and, on the mounted list, sets [scrollEnabled] to the negation
    of [isScaled]; all along a session the list scrolls exactly when its
    image is not scaled. *)
Theorem zoom_sets_scroll_and_bars (isScaled : bool) (st : Instance)
    (p : Props) (events : list Event) :
  barsVisible (fst (onZoom isScaled st)) = negb isScaled /\
  match imageList st with
  | Some _ =>
      snd (onZoom isScaled st) = [SetNativeProps (negb isScaled)] /\
      option_map scrollEnabled (imageList (fst (onZoom isScaled st))) =
        Some (negb isScaled) /\
      option_map itemScaled (imageList (fst (onZoom isScaled st))) = Some isScaled
  | None =>
      snd (onZoom isScaled st) = [] /\ imageList (fst (onZoom isScaled st)) = None
  end /\
  barsVisible (inst (fst (step env (fst (session env p events)) (Zoom isScaled)))) =
    negb isScaled /\
  option_map scrollEnabled
    (imageList (inst (fst (step env (fst (session env p events)) (Zoom isScaled))))) =
    (if visible (props (fst (session env p events)))
     then Some (negb isScaled) else None) /\
  zoomConsistent (inst (fst (session env p events))).
Proof.
  split; [|split; [|split; [|split]]].
  - unfold onZoom. destruct (imageList st); reflexivity.
  - unfold onZoom. destruct (imageList st) eqn:E; cbn; rewrite ?E; auto.
  - rewrite step_eq. cbn [fst inst].
    destruct (rerender_fields (props (fst (session env p events)))
                (afterHandler env (fst (session env p events)) (Zoom isScaled)))
      as (_ & _ & _ & B).
    rewrite B. unfold afterHandler. cbn [handle]. unfold onZoom.
    destruct (imageList (inst (fst (session env p events)))); reflexivity.
  - destruct (session_committed p events) as (_ & _ & _ & Hv & _).
    rewrite step_eq. cbn [fst inst]. rewrite rerender_imageList.
    unfold afterHandler. cbn [handle]. unfold onZoom.
    destruct (visible (props (fst (session env p events)))); [|reflexivity].
    destruct (imageList (inst (fst (session env p events)))); [reflexivity|].
    now contradiction Hv.
  - now destruct (session_committed p events) as (_ & _ & _ & _ & Hz).
Qed.

(** ** Closing *)

Lemma run_snd_app v e rest :
  snd (run env v (e :: rest)) =
  snd (step env v e) ++ snd (run env (fst (step env v e)) rest).
Proof.
  cbn [run]. destruct (step env v e) as [v1 c1]. cbn [fst snd].
  destruct (run env v1 rest); reflexivity.
Qed.

Lemma rerender_no_close p st cb : ~ In (CallOnRequestClose cb) (snd (rerender p st)).
Proof.
  rewrite rerender_calls.
  destruct (effectDeps st =? currentImageIndex st); [intros []|].
  destruct (onImageIndexChange p); cbn; [intros [H|[]]; discriminate | intros []].
Qed.

Lemma mount_no_close p cb : ~ In (CallOnRequestClose cb) (snd (mount env p)).
Proof.
  rewrite mount_calls.
  destruct (onImageIndexChange p); cbn; [intros [H|[]]; discriminate | intros []].
Qed.

Lemma rerender_committed_silent v st :
  committed v ->
  effectDeps st = effectDeps (inst v) ->
  currentImageIndex st = currentImageIndex (inst v) ->
  snd (rerender (props v) st) = [].
Proof.
  intros (Hd & _) E1 E2. rewrite rerender_calls, E1, E2, Hd, Z.eqb_refl. reflexivity.
Qed.

(** C8: in every step of the viewer a call of [onRequestClose] is made only
    when the event is the end of the fade and a close was pending, never by
    the close request itself; and a close request followed by the end of the
    fade does call [onRequestClose], once, at the end of the fade. *)
Theorem close_waits_for_fade (p : Props) (events : list Event) (v : Viewer)
    (e : Event) (cb : Callback)
    (Hcalled : In (CallOnRequestClose cb) (snd (step env v e))) :
  (e = FadeEnd /\ closePending (inst v) = true /\ cb = onRequestClose (props v)) /\
  snd (step env (fst (session env p events)) RequestClose) = [] /\
  snd (run env (fst (session env p events)) [RequestClose; FadeEnd]) =
    [CallOnRequestClose (onRequestClose (props (fst (session env p events))))].
Proof.
  pose proof (session_committed p events) as Hc.
  set (s := fst (session env p events)) in *.
  assert (Hreq : snd (step env s RequestClose) = []).
  { rewrite step_eq. cbn [snd handle onRequestCloseEnhanced app].
    now apply rerender_committed_silent. }
  split; [|split; [exact Hreq|]].
  - rewrite step_eq in Hcalled.
    destruct e as [c | scrollX | b | src | | | p']; cbn [snd] in Hcalled;
      try (apply in_app_or in Hcalled as [H | H];
           [| now apply rerender_no_close in H]).
    + destruct c; cbn in Hcalled; unfold scrollNext, scrollPrev in Hcalled;
        destruct (imageList (inst v)); cbn in Hcalled;
        try destruct Hcalled as [H|[]]; try discriminate; contradiction.
    + cbn in H. destruct (imageList (inst v)); destruct H.
    + cbn in H. unfold onZoom in H.
      destruct (imageList (inst v)); cbn in H;
        try destruct H as [H|[]]; try discriminate; contradiction.
    + cbn in H. destruct (onPress (props v)); cbn in H;
        try destruct H as [H|[]]; try discriminate; contradiction.
    + destruct H.
    + cbn in H. unfold onFadeEnd in H.
      destruct (closePending (inst v)); cbn in H; [|destruct H].
      destruct H as [H|[]]. injection H as <-. auto.
    + rewrite update_eq in Hcalled. cbn [snd] in Hcalled.
      destruct (sameKey (props v) p').
      * now apply rerender_no_close in Hcalled.
      * now apply mount_no_close in Hcalled.
  - rewrite run_snd_app, Hreq. cbn [app].
    rewrite run_snd_app. cbn [run snd]. rewrite app_nil_r.
    pose proof (step_committed s RequestClose Hc) as Hc1.
    set (s1 := fst (step env s RequestClose)) in *.
    assert (Hp : props s1 = props s) by (unfold s1; rewrite step_eq; reflexivity).
    assert (Hpend : closePending (inst s1) = true).
    { unfold s1. rewrite step_eq. cbn [fst inst].
      now destruct (rerender_fields (props s) (afterHandler env s RequestClose))
        as (_ & C & _). }
    rewrite step_eq. cbn [snd handle]. unfold onFadeEnd. rewrite Hpend. cbn [snd fst].
    rewrite rerender_committed_silent; [now rewrite Hp | exact Hc1 | |];
      unfold afterHandler; cbn [handle]; unfold onFadeEnd; rewrite Hpend; reflexivity.
Qed.

End ViewerProperties.

(** * The properties at concrete viewers *)

Lemma handle_requests_neighbour_index_at_last :
  imageList (inst atLast) = Some freshList /\
  step phone atLast (Command Types.scrollNext) = (atLast, [ScrollToIndex 3 true]) /\
  step phone atLast (Command Types.scrollPrev) = (atLast, [ScrollToIndex 1 true]).
Proof.
  split; [reflexivity|].
  exact (proj2 (handle_requests_neighbour_index phone atLast freshList eq_refl)).
Defined.

Lemma handle_null_ref_is_noop_hidden :
  imageList (inst hidden) = None /\
  imperativeHandle Types.scrollNext (inst hidden) = [] /\
  perform (fun _ => false) (imperativeHandle Types.scrollNext (inst hidden)) =
    Returned [] /\
  step phone hidden (Command Types.scrollNext) = (hidden, []).
Proof.
  split; [reflexivity|].
  exact (handle_null_ref_is_noop phone (fun _ => false) hidden eq_refl Types.scrollNext).
Defined.

Lemma index_change_calls_back_second_page :
  1 <> 0 /\
  snd (step phone atFirst (MomentumScrollEnd 375)) = [CallOnImageIndexChange 7%nat 1].
Proof.
  assert (H : 1 <> 0) by discriminate.
  split; [exact H|].
  exact (proj2 (index_change_calls_back phone
                  (gallery threePhotos 0 true (Some 7%nat)) []
                  (MomentumScrollEnd 375) H)).
Defined.

Lemma key_change_remounts_at_first :
  2 <> 0 /\
  currentImageIndex
    (inst (fst (step phone closing (NewProps (gallery threePhotos 2 true None))))) = 2 /\
  opacity
    (inst (fst (step phone closing (NewProps (gallery threePhotos 2 true None))))) = 1%Q /\
  barsVisible
    (inst (fst (step phone closing (NewProps (gallery threePhotos 2 true None))))) = true /\
  closePending
    (inst (fst (step phone closing (NewProps (gallery threePhotos 2 true None))))) = false.
Proof.
  assert (H : 2 <> 0) by discriminate.
  split; [exact H|].
  exact (proj2 (key_change_remounts phone (gallery threePhotos 2 true None) closing H)).
Defined.

Lemma close_waits_for_fade_closing :
  In (CallOnRequestClose 0%nat) (snd (step phone closing FadeEnd)) /\
  closePending (inst closing) = true /\
  snd (step phone atFirst RequestClose) = [] /\
  snd (run phone atFirst [RequestClose; FadeEnd]) = [CallOnRequestClose 0%nat].
Proof.
  assert (H : In (CallOnRequestClose 0%nat) (snd (step phone closing FadeEnd)))
    by (left; reflexivity).
  split; [exact H|].
  destruct (close_waits_for_fade phone (gallery threePhotos 0 true (Some 7%nat)) []
              closing FadeEnd 0%nat H) as ((_ & Hp & _) & Hr & Hd).
  exact (conj Hp (conj Hr Hd)).
Defined.

(** * Further properties of the component *)

Section ListProperties.

Variable env : Env.

(** ** Items *)

Lemma getItem_Some_iff p index :
  getItem p index <> None <-> 0 <= index < imageCount p.
Proof.
  unfold getItem, imageCount.
  destruct (index <? 0) eqn:Q; [apply Z.ltb_lt in Q | apply Z.ltb_ge in Q].
  - split; [intros H; now contradiction H | lia].
  - rewrite nth_error_Some. lia.
Qed.

(** The list finds an image at an index exactly when the index is at least
    0 and below [getItemCount], and the image it finds is one of [images]. *)
Theorem getItem_defined_within_count (p : Props) (index : Z) :
  (getItem p index <> None <-> 0 <= index < getItemCount p) /\
  match getItem p index with
  | Some imageSrc => In imageSrc (images p)
  | None => index < 0 \/ getItemCount p <= index
  end.
Proof.
  split; [apply getItem_Some_iff|].
  pose proof (getItem_Some_iff p index) as G. unfold getItemCount.
  destruct (getItem p index) eqn:E.
  - unfold getItem in E. destruct (index <? 0); [discriminate|].
    now apply nth_error_In in E.
  - destruct (Z.lt_ge_cases index 0); [now left|].
    destruct (Z.lt_ge_cases index (imageCount p)); [|now right].
    exfalso. assert (N : @None ImageSource <> None) by (apply G; lia).
    now contradiction N.
Qed.

(** With the current index among the images, a command of the handle asks
    for an index at which the list has no item exactly when it is
    [scrollNext] at the last image or [scrollPrev] at the first. *)
Theorem command_target_missing_at_ends (v : Viewer) (c : ImageViewingRef)
    (index : Z) (animated : bool)
    (Hbounds : indexInBounds v)
    (Hrequest : In (ScrollToIndex index animated) (snd (step env v (Command c)))) :
  getItem (props v) index = None <->
  (c = Types.scrollNext /\ currentImageIndex (inst v) = imageCount (props v) - 1) \/
  (c = Types.scrollPrev /\ currentImageIndex (inst v) = 0).
Proof.
  unfold indexInBounds in Hbounds.
  assert (Hnone : forall i, getItem (props v) i = None <->
                            ~ (0 <= i < imageCount (props v))).
  { intros i. pose proof (getItem_Some_iff (props v) i) as G.
    destruct (getItem (props v) i); split; intros H.
    - discriminate.
    - exfalso. apply H, G. discriminate.
    - intros R. apply G in R. now contradiction R.
    - reflexivity. }
  cbn [step snd] in Hrequest.
  destruct c; cbn in Hrequest; unfold scrollNext, scrollPrev in Hrequest;
    destruct (imageList (inst v)); cbn in Hrequest;
    try contradiction; destruct Hrequest as [H | []];
    injection H as <- _; rewrite Hnone; split.
  - intros N. left. split; [reflexivity | lia].
  - intros [[_ E] | [E _]]; [lia | discriminate].
  - intros N. right. split; [reflexivity | lia].
  - intros [[E _] | [_ E]]; [discriminate | lia].
Qed.

(** ** Keys *)

Lemma templateLiteral_inj a b : templateLiteral a = templateLiteral b -> a = b.
Proof.
  unfold templateLiteral. intros H.
  apply DecimalZ.to_int_inj.
  pose proof (NilEmpty.isi (Z.to_int a)) as Ha.
  pose proof (NilEmpty.isi (Z.to_int b)) as Hb.
  rewrite H in Ha. congruence.
Qed.

Lemma keysFrom_default p index sources :
  keyExtractor p = None ->
  keysFrom p index sources = map (fun imageSrc => listKeyExtractor p imageSrc 0) sources.
Proof.
  intros Hd. revert index.
  induction sources as [|imageSrc rest IH]; intros index; [reflexivity|].
  cbn [keysFrom map]. rewrite IH. f_equal.
  unfold listKeyExtractor. now rewrite Hd.
Qed.

Lemma default_key_of_provider p a b :
  keyExtractor p = None ->
  provider a = provider b ->
  listKeyExtractor p a 0 = listKeyExtractor p b 0.
Proof. intros Hd E. unfold listKeyExtractor. now rewrite Hd, E. Qed.

Lemma default_key_bundled_inj p a b :
  keyExtractor p = None ->
  isBundled a -> isBundled b ->
  listKeyExtractor p a 0 = listKeyExtractor p b 0 ->
  provider a = provider b.
Proof.
  unfold listKeyExtractor, isBundled. intros Hd Ha Hb. rewrite Hd.
  destruct (provider a), (provider b); try contradiction.
  intros H. injection H as H. f_equal. now apply templateLiteral_inj.
Qed.

(** Without a [keyExtractor] prop the key of an item does not depend on its
    index: the keys of the list are distinct only if the images differ in
    their asset or uri, and for bundled assets that is enough; a bundled
    asset and a uri that spells its number get the same key. *)
Theorem default_keys_distinct (p : Props) (Hdefault : keyExtractor p = None) :
  (NoDup (listKeys p) -> NoDup (map provider (images p))) /\
  (Forall isBundled (images p) ->
   NoDup (map provider (images p)) -> NoDup (listKeys p)) /\
  (forall a b i j,
      provider a = ImageRequireSource i ->
      provider b = ImageURISource (Some (templateLiteral i)) ->
      listKeyExtractor p a j = listKeyExtractor p b (j + 1)).
Proof.
  unfold listKeys. rewrite keysFrom_default by exact Hdefault.
  split; [|split].
  - generalize (images p) as l.
    induction l as [|a l IH]; cbn [map]; intros H; [constructor|].
    inversion H as [|? ? Hn Hl]; subst. constructor; [|now apply IH].
    intros Hin. apply Hn. apply in_map_iff in Hin as (b & Eb & Hb).
    apply in_map_iff. exists b. split; [|exact Hb].
    now apply default_key_of_provider.
  - generalize (images p) as l.
    induction l as [|a l IH]; cbn [map]; intros Hall H; [constructor|].
    inversion Hall as [|? ? Ha Hl]; subst.
    inversion H as [|? ? Hn Hd]; subst. constructor; [|now apply IH].
    intros Hin. apply Hn. apply in_map_iff in Hin as (b & Eb & Hb).
    apply in_map_iff. exists b. split; [|exact Hb].
    apply (default_key_bundled_inj p); auto.
    rewrite Forall_forall in Hl. now apply Hl.
  - intros a b i j Ha Hb. unfold listKeyExtractor. now rewrite Hdefault, Ha, Hb.
Qed.

End ListProperties.

Section SessionProperties.

Variable env : Env.

Lemma sameKey_true p p' : imageIndex p' = imageIndex p -> sameKey p p' = true.
Proof. intros E. unfold sameKey. rewrite E. apply Z.eqb_refl. Qed.

Lemma sameKey_false p p' : sameKey p p' = false -> imageIndex p' <> imageIndex p.
Proof. unfold sameKey. intros E H. rewrite H, Z.eqb_refl in E. discriminate. Qed.

(** ** New props under the same key *)

(** New props whose [imageIndex] is the one of the last render keep the
    instance: the current index, the opacity, a pending close and the bar
    visibility stay as they are, and no call is made. *)
Theorem same_key_keeps_state (p : Props) (events : list Event) (p' : Props)
    (Hkey : imageIndex p' = imageIndex (props (fst (session env p events)))) :
  currentImageIndex (inst (fst (step env (fst (session env p events)) (NewProps p')))) =
    currentImageIndex (inst (fst (session env p events))) /\
  opacity (inst (fst (step env (fst (session env p events)) (NewProps p')))) =
    opacity (inst (fst (session env p events))) /\
  closePending (inst (fst (step env (fst (session env p events)) (NewProps p')))) =
    closePending (inst (fst (session env p events))) /\
  barsVisible (inst (fst (step env (fst (session env p events)) (NewProps p')))) =
    barsVisible (inst (fst (session env p events))) /\
  snd (step env (fst (session env p events)) (NewProps p')) = [].
Proof.
  pose proof (session_committed env p events) as Hc.
  set (v := fst (session env p events)) in *.
  cbn [step]. rewrite update_eq, (sameKey_true _ _ Hkey). cbn [fst snd inst].
  destruct (rerender_fields p' (inst v)) as (O & C & I & B).
  repeat split; auto.
  destruct Hc as (Hd & _). rewrite rerender_calls, Hd, Z.eqb_refl. reflexivity.
Qed.

(** ** Where the calls come from *)

Lemma rerender_call_is_report p st call :
  In call (snd (rerender p st)) ->
  effectDeps st <> currentImageIndex st /\
  exists cb, onImageIndexChange p = Some cb /\
             call = CallOnImageIndexChange cb (currentImageIndex st).
Proof.
  rewrite rerender_calls.
  destruct (effectDeps st =? currentImageIndex st) eqn:Q; [intros []|].
  apply Z.eqb_neq in Q.
  destruct (onImageIndexChange p) as [cb|]; [|intros []].
  intros [H | []]. split; [exact Q|]. exists cb. auto.
Qed.

Lemma mount_call_is_report p call :
  In call (snd (mount env p)) ->
  exists cb, onImageIndexChange p = Some cb /\
             call = CallOnImageIndexChange cb (imageIndex p).
Proof.
  rewrite mount_calls.
  destruct (onImageIndexChange p) as [cb|]; [|intros []].
  intros [H | []]. exists cb. auto.
Qed.

Lemma step_call_accounted v e call :
  committed v ->
  In call (snd (step env v e)) ->
  accountedFor v (fst (step env v e)) e call.
Proof.
  intros (Hd & _) Hin. rewrite step_eq in Hin |- *.
  assert (Hrer : forall e',
    effectDeps (afterHandler env v e') = effectDeps (inst v) ->
    In call (snd (rerender (props v) (afterHandler env v e'))) ->
    accountedFor v
      {| props := props v; inst := fst (rerender (props v) (afterHandler env v e')) |}
      e' call).
  { intros e' Ed H.
    apply rerender_call_is_report in H as (N & cb & Hcb & ->).
    destruct (rerender_fields (props v) (afterHandler env v e')) as (_ & _ & I & _).
    cbn [accountedFor props inst]. rewrite I.
    split; [exact Hcb|]. split; [reflexivity|]. left. congruence. }
  destruct e as [c | scrollX | b | src | | | p']; cbn [fst snd] in Hin |- *.
  - destruct c; cbn in Hin; unfold scrollNext, scrollPrev in Hin;
      destruct (imageList (inst v)) eqn:El; cbn in Hin; try contradiction;
      destruct Hin as [<- | []]; cbn; rewrite El;
      (split; [reflexivity|]; split; [discriminate|]); auto.
  - apply in_app_or in Hin as [H | H].
    + cbn in H. destruct (imageList (inst v)); destruct H.
    + apply Hrer in H; [exact H|].
      now destruct (handle_fields env (props v) (MomentumScrollEnd scrollX) (inst v))
        as (_ & _ & F).
  - apply in_app_or in Hin as [H | H].
    + cbn in H. unfold onZoom in H.
      destruct (imageList (inst v)) eqn:El; cbn in H; [|destruct H].
      destruct H as [<- | []]. cbn. rewrite negb_involutive, El.
      split; [reflexivity | discriminate].
    + apply Hrer in H; [exact H|].
      now destruct (handle_fields env (props v) (Zoom b) (inst v)) as (_ & _ & F).
  - apply in_app_or in Hin as [H | H].
    + cbn in H. destruct (onPress (props v)) eqn:Ep; cbn in H; [|destruct H].
      destruct H as [<- | []]. cbn. auto.
    + apply Hrer in H; [exact H | reflexivity].
  - apply in_app_or in Hin as [H | H]; [destruct H|].
    apply Hrer in H; [exact H | reflexivity].
  - apply in_app_or in Hin as [H | H].
    + cbn in H. unfold onFadeEnd in H.
      destruct (closePending (inst v)); cbn in H; [|destruct H].
      destruct H as [<- | []]. exact I.
    + apply Hrer in H; [exact H|].
      now destruct (handle_fields env (props v) FadeEnd (inst v)) as (_ & _ & F).
  - rewrite update_eq in Hin |- *. cbn [fst snd] in Hin |- *.
    destruct (sameKey (props v) p') eqn:K.
    + apply rerender_call_is_report in Hin as (N & _). congruence.
    + apply mount_call_is_report in Hin as (cb & Hcb & ->).
      cbn [accountedFor props inst].
      destruct (mount_fields env p') as (_ & _ & I & _). rewrite I.
      split; [exact Hcb|]. split; [reflexivity|]. right.
      exists p'. split; [reflexivity|]. now apply sameKey_false.
Qed.


(** ** Commands in a row *)

(** Commands of the handle given one after the other, with nothing else in
    between, all start from the same current index: the viewer is unchanged
    and each command makes the request it would have made alone. *)
Theorem commands_do_not_accumulate (v : Viewer) (commands : list ImageViewingRef) :
  run env v (map Command commands) =
  (v, flat_map (fun c => imperativeHandle c (inst v)) commands).
Proof.
  induction commands as [|c rest IH]; [reflexivity|].
  cbn [map run flat_map step]. rewrite IH. reflexivity.
Qed.

(** ** The application and the current index *)

Lemma reportedIndices_app a b :
  reportedIndices (a ++ b) = reportedIndices a ++ reportedIndices b.
Proof.
  induction a as [|c a IH]; [reflexivity|].
  destruct c; cbn; rewrite ?IH; reflexivity.
Qed.

Lemma reportedIndices_In calls index :
  In index (reportedIndices calls) ->
  exists cb, In (CallOnImageIndexChange cb index) calls.
Proof.
  induction calls as [|c calls IH]; [intros []|].
  destruct c as [i a | b | cb i | cb | cb src]; cbn [reportedIndices]; intros H;
    try (destruct (IH H) as [k Hk]; exists k; right; exact Hk).
  destruct H as [<- | H]; [exists cb; left; reflexivity|].
  destruct (IH H) as [k Hk]. exists k. right. exact Hk.
Qed.

Lemma lastReported_app a b index :
  (forall i, In i (reportedIndices b) -> i = index) ->
  (reportedIndices b = [] -> lastReported a = Some index) ->
  lastReported (a ++ b) = Some index.
Proof.
  unfold lastReported. rewrite reportedIndices_app, rev_app_distr.
  intros Hall Hnil.
  destruct (rev (reportedIndices b)) as [|i r] eqn:E.
  - apply Hnil. rewrite <- (rev_involutive (reportedIndices b)), E. reflexivity.
  - cbn. f_equal. apply Hall. apply in_rev. rewrite E. left. reflexivity.
Qed.

Lemma step_keeps_callback v e :
  callbackGiven (props v) -> keepsCallback e ->
  callbackGiven (props (fst (step env v e))).
Proof.
  intros Hg Hk. rewrite step_eq.
  destruct e; try exact Hg. rewrite update_eq. exact Hk.
Qed.

Lemma run_reports_current events :
  forall v before,
    committed v -> callbackGiven (props v) -> Forall keepsCallback events ->
    lastReported before = Some (currentImageIndex (inst v)) ->
    lastReported (before ++ snd (run env v events)) =
    Some (currentImageIndex (inst (fst (run env v events)))).
Proof.
  induction events as [|e rest IH]; intros v before Hc Hg Hk Hlast.
  - cbn. now rewrite app_nil_r.
  - rewrite run_snd_app, run_fst_app, app_assoc.
    inversion Hk as [|? ? Hke Hkrest]; subst.
    apply IH; auto using step_committed, step_keeps_callback.
    apply lastReported_app.
    + intros i Hi. apply reportedIndices_In in Hi as [cb Hcb].
      apply (step_call_accounted v e _ Hc) in Hcb. apply Hcb.
    + intros Hnil.
      destruct (step_index_unchanged_or_reported env v e Hc) as [E | E].
      * now rewrite E.
      * pose proof (step_keeps_callback v e Hg Hke) as Hg'.
        unfold callbackGiven in Hg'. rewrite E in Hnil.
        destruct (onImageIndexChange (props (fst (step env v e))));
          [discriminate Hnil | now contradiction Hg'].
Qed.

Lemma session_reports_current p events :
  callbackGiven p -> Forall keepsCallback events ->
  lastReported (snd (session env p events)) =
  Some (currentImageIndex (inst (fst (session env p events)))).
Proof.
  intros Hgiven Hkept.
  assert (E : session env p events =
              (fst (run env (fst (EnhancedImageViewing_mount env p)) events),
               snd (EnhancedImageViewing_mount env p) ++
               snd (run env (fst (EnhancedImageViewing_mount env p)) events))).
  { unfold session. destruct (EnhancedImageViewing_mount env p) as [v0 c0].
    cbn [fst snd]. destruct (run env v0 events); reflexivity. }
  rewrite E. cbn [fst snd].
  apply run_reports_current;
    [apply mount_committed | rewrite mountViewer_eq; exact Hgiven | exact Hkept |].
  rewrite mountViewer_eq. cbn [fst snd props inst]. rewrite mount_calls.
  destruct (mount_fields env p) as (_ & _ & I & _). rewrite I.
  unfold callbackGiven in Hgiven.
  destruct (onImageIndexChange p); [reflexivity | now contradiction Hgiven].
Qed.

(** When the [onImageIndexChange] prop is given at mount and in all later
    props, the index last passed to it is the current index, at every point
    of a session. *)
Theorem application_knows_current_index (p : Props) (events : list Event)
    (Hgiven : callbackGiven p)
    (Hkept : Forall keepsCallback events) :
  lastReported (snd (session env p events)) =
  Some (currentImageIndex (inst (fst (session env p events)))).
Proof. now apply session_reports_current. Qed.

(** ** The scroll lock *)

Lemma step_keeps_list v e :
  committed v -> besidesZoomAndProps e ->
  imageList (inst (fst (step env v e))) = imageList (inst v) /\
  props (fst (step env v e)) = props v.
Proof.
  intros (_ & _ & _ & Hv & _) He. rewrite step_eq.
  destruct e as [c | scrollX | b | src | | | p']; try contradiction;
    try (split; reflexivity); cbn [fst inst props]; (split; [|reflexivity]);
    rewrite rerender_imageList; unfold afterHandler; cbn [handle];
    unfold onFadeEnd; cbn;
    destruct (visible (props v));
    try destruct (imageList (inst v)) eqn:El;
    try destruct (closePending (inst v)); cbn; rewrite ?El; congruence.
Qed.

(** Once a visible viewer has been told that its image is scaled, the list
    stays locked against scrolling through every event that is neither a zoom
    report nor new props, the commands of the handle included, which go on
    asking the locked list to scroll. *)
Theorem zoom_lock_persists (p : Props) (events later : list Event)
    (c : ImageViewingRef)
    (Hvisible : visible (props (fst (session env p events))) = true)
    (Hlater : Forall besidesZoomAndProps later) :
  scrollLocked
    (inst (fst (run env (fst (step env (fst (session env p events)) (Zoom true)))
                  later))) /\
  imperativeHandle c
    (inst (fst (run env (fst (step env (fst (session env p events)) (Zoom true)))
                  later))) <> [].
Proof.
  pose proof (session_committed env p events) as Hc.
  set (v := fst (session env p events)) in *.
  assert (Hinv : (fun w => committed w /\ scrollLocked (inst w))
                   (fst (run env (fst (step env v (Zoom true))) later))).
  { apply run_invariant with (allowed := besidesZoomAndProps); [| exact Hlater |].
    - intros w e He [Hw Hl]. split; [now apply step_committed|].
      unfold scrollLocked in *.
      destruct (step_keeps_list w e Hw He) as [El _]. now rewrite El.
    - split; [now apply step_committed|].
      destruct Hc as (_ & _ & _ & Hv & _). rewrite Hvisible in Hv.
      unfold scrollLocked. rewrite step_eq. cbn [fst inst].
      rewrite rerender_imageList, Hvisible. unfold afterHandler. cbn [handle].
      unfold onZoom. destruct (imageList (inst v)); [reflexivity | now contradiction Hv]. }
  destruct Hinv as [_ Hl]. split; [exact Hl|].
  unfold scrollLocked in Hl.
  destruct c; cbn; unfold scrollNext, scrollPrev;
    destruct (imageList _); cbn in Hl; discriminate.
Qed.

(** ** Pressing an image *)

(** A press calls [onPress] with the pressed image, once, when the prop is
    given, and makes no other call; it changes neither the current index nor
    the list. *)
Theorem press_calls_onPress (p : Props) (events : list Event) (src : ImageSource) :
  snd (step env (fst (session env p events)) (Press src)) =
    match onPress (props (fst (session env p events))) with
    | Some cb => [CallOnPress cb src]
    | None => []
    end /\
  currentImageIndex (inst (fst (step env (fst (session env p events)) (Press src)))) =
    currentImageIndex (inst (fst (session env p events))) /\
  imageList (inst (fst (step env (fst (session env p events)) (Press src)))) =
    imageList (inst (fst (session env p events))).
Proof.
  pose proof (session_committed env p events) as Hc.
  set (v := fst (session env p events)) in *.
  split; [|split].
  - rewrite step_eq. cbn [snd handle onPressHandler].
    rewrite (rerender_committed_silent v) by (auto; reflexivity).
    apply app_nil_r.
  - rewrite step_eq. cbn [fst inst].
    now destruct (rerender_fields (props v) (afterHandler env v (Press src)))
      as (_ & _ & I & _).
  - now destruct (step_keeps_list v (Press src) Hc I).
Qed.

(** ** Header and footer *)

(** When the [onImageIndexChange] prop is given throughout a session, then
    between the steps of the session, when the render is committed and its
    effect has run, the element the component returns shows the index last
    passed to [onImageIndexChange]: a given [HeaderComponent] and a given
    [FooterComponent] are created with that index, the default header is
    used exactly when no [HeaderComponent] is given and the footer is left out
    exactly when no [FooterComponent] is given; the list is given the images,
    their number, and the [imageIndex] prop as the index to start at. *)
Theorem bars_show_reported_index (p : Props) (events : list Event) (m : ModalElement)
    (Hgiven : callbackGiven p)
    (Hkept : Forall keepsCallback events)
    (Hrender : render (props (fst (session env p events)))
                 (inst (fst (session env p events))) = Some m) :
  exists index,
    lastReported (snd (session env p events)) = Some index /\
    header_content m =
      match HeaderComponent (props (fst (session env p events))) with
      | Some component => CustomHeader component index
      | None => ImageDefaultHeader
      end /\
    footer m =
      match FooterComponent (props (fst (session env p events))) with
      | Some component =>
          Some (snd (footerAnimation (inst (fst (session env p events)))),
                (component, index))
      | None => None
      end /\
    data (list_element m) = images (props (fst (session env p events))) /\
    itemCount (list_element m) = getItemCount (props (fst (session env p events))) /\
    initialScrollIndex (list_element m) =
      imageIndex (props (fst (session env p events))).
Proof.
  pose proof (session_reports_current p events Hgiven Hkept) as Hlast.
  set (v := fst (session env p events)) in *.
  exists (currentImageIndex (inst v)). split; [exact Hlast|].
  unfold render in Hrender.
  destruct (negb (visible (props v))); [discriminate|].
  injection Hrender as <-. cbn. repeat split.
Qed.

End SessionProperties.

(** * The further properties at concrete viewers *)

Lemma command_target_missing_at_ends_last :
  indexInBounds atLast /\
  In (ScrollToIndex 3 true) (snd (step phone atLast (Command Types.scrollNext))) /\
  getItem (props atLast) 3 = None.
Proof.
  assert (Hb : indexInBounds atLast) by (split; [discriminate | reflexivity]).
  assert (Hr : In (ScrollToIndex 3 true)
                 (snd (step phone atLast (Command Types.scrollNext))))
    by (left; reflexivity).
  split; [exact Hb|]. split; [exact Hr|].
  apply (proj2 (command_target_missing_at_ends phone atLast Types.scrollNext 3 true
                  Hb Hr)).
  left. split; reflexivity.
Defined.

Lemma default_keys_distinct_three_photos :
  keyExtractor (gallery threePhotos 0 true None) = None /\
  NoDup (listKeys (gallery threePhotos 0 true None)).
Proof.
  split; [reflexivity|].
  apply (proj1 (proj2 (default_keys_distinct (gallery threePhotos 0 true None) eq_refl))).
  - repeat constructor.
  - repeat constructor; cbn; intuition discriminate.
Defined.

Lemma same_key_keeps_state_on_hiding :
  0 = 0 /\
  currentImageIndex
    (inst (fst (step phone
                  (fst (session phone (gallery threePhotos 0 true (Some 7%nat))
                          [MomentumScrollEnd 375]))
                  (NewProps (gallery threePhotos 0 false (Some 7%nat)))))) = 1 /\
  snd (step phone
         (fst (session phone (gallery threePhotos 0 true (Some 7%nat))
                 [MomentumScrollEnd 375]))
         (NewProps (gallery threePhotos 0 false (Some 7%nat)))) = [].
Proof.
  split; [reflexivity|].
  destruct (same_key_keeps_state phone (gallery threePhotos 0 true (Some 7%nat))
              [MomentumScrollEnd 375] (gallery threePhotos 0 false (Some 7%nat))
              eq_refl) as (I & _ & _ & _ & C).
  exact (conj I C).
Defined.


Lemma application_knows_current_index_browsing :
  callbackGiven (gallery threePhotos 0 true (Some 7%nat)) /\
  Forall keepsCallback browsing /\
  lastReported (snd (session phone (gallery threePhotos 0 true (Some 7%nat)) browsing)) =
    Some 2.
Proof.
  assert (Hg : callbackGiven (gallery threePhotos 0 true (Some 7%nat))) by discriminate.
  assert (Hk : Forall keepsCallback browsing) by (repeat constructor).
  split; [exact Hg|]. split; [exact Hk|].
  exact (application_knows_current_index phone (gallery threePhotos 0 true (Some 7%nat))
           browsing Hg Hk).
Defined.

Lemma zoom_lock_persists_through_browsing :
  visible (props atFirst) = true /\
  Forall besidesZoomAndProps browsing /\
  scrollLocked (inst (fst (run phone (fst (step phone atFirst (Zoom true))) browsing))) /\
  imperativeHandle Types.scrollNext
    (inst (fst (run phone (fst (step phone atFirst (Zoom true))) browsing))) <> [].
Proof.
  assert (Hl : Forall besidesZoomAndProps browsing) by (repeat constructor).
  split; [reflexivity|]. split; [exact Hl|].
  exact (zoom_lock_persists phone (gallery threePhotos 0 true (Some 7%nat)) [] browsing
           Types.scrollNext eq_refl Hl).
Defined.

Lemma bars_show_reported_index_browsing :
  callbackGiven galleryWithBars /\
  Forall keepsCallback browsing /\
  (exists m,
      render (props (fst (session phone galleryWithBars browsing)))
        (inst (fst (session phone galleryWithBars browsing))) = Some m /\
      lastReported (snd (session phone galleryWithBars browsing)) = Some 2 /\
      header_content m = CustomHeader 11%nat 2 /\
      footer m = Some (OpacityStyle barsOpacity, (12%nat, 2))).
Proof.
  assert (Hg : callbackGiven galleryWithBars) by discriminate.
  assert (Hk : Forall keepsCallback browsing) by (repeat constructor).
  split; [exact Hg|]. split; [exact Hk|].
  eexists.
  destruct (bars_show_reported_index phone galleryWithBars browsing _ Hg Hk eq_refl)
    as (index & Hlast & Hheader & Hfooter & _).
  assert (E : index = 2).
  { assert (H2 : lastReported (snd (session phone galleryWithBars browsing)) = Some 2)
      by reflexivity.
    rewrite H2 in Hlast. now injection Hlast. }
  subst index. split; [reflexivity|]. split; [exact Hlast|].
  split; [exact Hheader | exact Hfooter].
Defined.

